(** * ReceiptsManagement: the admin receipts table

    A shallow embedding of [src/pages/admin/ReceiptsManagement.tsx]:
    the loader ([fetchReceipts]), the search filter ([filteredReceipts]),
    the paginator ([currentReceipts] and the page controls), the date
    cell ([formatDate]) and the part of the rendered tree that depends
    on them.

    Conventions.
    - A JavaScript string is the list of its UTF-16 code units.
    - A JavaScript number that the component only ever uses as an
      integer (array lengths, indices, the page number) is a [Z].
    - React state is a record; a setter is a function on that record;
      what the component does to the outside (toasts, console) is an
      explicit log next to the state.
    - Built-ins whose full behaviour is outside this file
      ([String.prototype.toLowerCase], the [Date] parser, the
      date-fns formatter of a valid date, [Intl.NumberFormat]) are
      [Variable]s of the section that uses them, so every theorem holds
      for whatever they compute. *)

From Stdlib Require Import ZArith Lia String Ascii.
From Stdlib Require Import Floats.PrimFloat.
From stdpp Require Import base tactics option list list_numbers.

Local Open Scope Z_scope.

(** ** JavaScript strings *)

Module JsString.

Abbreviation t := (list N).

(** The code units of an ASCII literal of the source. *)
Definition lit (s : string) : t := N_of_ascii <$> list_ascii_of_string s.

(** [ToBoolean] on a string: only the empty string is falsy. *)
Definition truthy (s : t) : bool :=
  match s with [] => false | _ :: _ => true end.

(** [s.startsWith(search)], the comparison [includes] makes at each
    position. *)
Fixpoint startsWith (s search : t) {struct search} : bool :=
  match search, s with
  | [], _ => true
  | _ :: _, [] => false
  | c :: search', d :: s' => (c =? d)%N && startsWith s' search'
  end.

(** [s.includes(search)]: is there a position at which [search]
    occurs in [s]. *)
Fixpoint includes (s search : t) : bool :=
  startsWith s search ||
  match s with
  | [] => false
  | _ :: s' => includes s' search
  end.

(** What "is a substring of" means, independently of the search. *)
Definition substring (search s : t) : Prop :=
  ∃ before after, s = before ++ search ++ after.

(** Lower-casing of the ASCII letters only; used to run the component
    on concrete receipts. *)
Definition lower_unit (c : N) : N :=
  if ((65 <=? c) && (c <=? 90))%N then (c + 32)%N else c.

Definition ascii_toLowerCase (s : t) : t := lower_unit <$> s.

End JsString.

(** ** JavaScript arrays and the integer arithmetic of the paginator *)

Module JsArray.

(** [Array.prototype.slice(start, end)] with both arguments given:
    a negative index counts from the end, every index is clamped to
    [0, length], and an empty range gives the empty array. *)
Definition slice {A} (l : list A) (start end_ : Z) : list A :=
  let len := Z.of_nat (length l) in
  let k := if start <? 0 then Z.max (len + start) 0 else Z.min start len in
  let final := if end_ <? 0 then Z.max (len + end_) 0 else Z.min end_ len in
  take (Z.to_nat (final - k)) (drop (Z.to_nat k) l).

(** [Math.ceil(n / d)] for an array length [n] and a positive
    integer [d].  The floating-point quotient of two such integers
    is never rounded onto an integer it does not equal, so the
    result is the integer ceiling of the exact quotient. *)
Definition ceil_div (n d : Z) : Z := (n + d - 1) / d.

End JsArray.

(** ** Receipts *)

(** Modelled from the spec: the [Receipt] type is declared in
    [services/receiptService], which is not part of the sources at
    hand.  The records below have the fields the component reads, with
    the types the spec's data model gives them: an identifier, a
    booking (its own identifier, a user with name and e-mail, a
    service with a name, a status), a final price, the
    service-personnel name and the completion timestamp string. *)
Module User.
Record t := { name : JsString.t; email : JsString.t }.
End User.

Module Service.
Record t := { name : JsString.t }.
End Service.

Module Booking.
Record t := {
  _id : JsString.t;
  user : User.t;
  service : Service.t;
  status : JsString.t
}.
End Booking.

Module Receipt.
Record t := {
  _id : JsString.t;
  booking : Booking.t;
  finalPrice : float;
  servicePersonnelName : JsString.t;
  completionDate : JsString.t
}.
End Receipt.

(** ** Component state *)

(** The [useState] cells of the component.  [itemsPerPage] is a cell
    too, but its setter is never bound, so it is the constant below. *)
Record State := {
  receipts : list Receipt.t;
  isLoading : bool;
  error : option JsString.t;
  searchTerm : JsString.t;
  selectedReceipt : option Receipt.t;
  isModalOpen : bool;
  currentPage : Z
}.

Definition itemsPerPage : Z := 10.

(** What the first render starts from. *)
Definition initialState : State := {|
  receipts := [];
  isLoading := false;
  error := None;
  searchTerm := [];
  selectedReceipt := None;
  isModalOpen := false;
  currentPage := 1
|}.

Definition setReceipts (v : list Receipt.t) (s : State) : State :=
  {| receipts := v; isLoading := isLoading s; error := error s;
     searchTerm := searchTerm s; selectedReceipt := selectedReceipt s;
     isModalOpen := isModalOpen s; currentPage := currentPage s |}.

Definition setIsLoading (v : bool) (s : State) : State :=
  {| receipts := receipts s; isLoading := v; error := error s;
     searchTerm := searchTerm s; selectedReceipt := selectedReceipt s;
     isModalOpen := isModalOpen s; currentPage := currentPage s |}.

Definition setError (v : option JsString.t) (s : State) : State :=
  {| receipts := receipts s; isLoading := isLoading s; error := v;
     searchTerm := searchTerm s; selectedReceipt := selectedReceipt s;
     isModalOpen := isModalOpen s; currentPage := currentPage s |}.

Definition setSearchTerm (v : JsString.t) (s : State) : State :=
  {| receipts := receipts s; isLoading := isLoading s; error := error s;
     searchTerm := v; selectedReceipt := selectedReceipt s;
     isModalOpen := isModalOpen s; currentPage := currentPage s |}.

Definition setSelectedReceipt (v : option Receipt.t) (s : State) : State :=
  {| receipts := receipts s; isLoading := isLoading s; error := error s;
     searchTerm := searchTerm s; selectedReceipt := v;
     isModalOpen := isModalOpen s; currentPage := currentPage s |}.

Definition setIsModalOpen (v : bool) (s : State) : State :=
  {| receipts := receipts s; isLoading := isLoading s; error := error s;
     searchTerm := searchTerm s; selectedReceipt := selectedReceipt s;
     isModalOpen := v; currentPage := currentPage s |}.

Definition setCurrentPage (v : Z) (s : State) : State :=
  {| receipts := receipts s; isLoading := isLoading s; error := error s;
     searchTerm := searchTerm s; selectedReceipt := selectedReceipt s;
     isModalOpen := isModalOpen s; currentPage := v |}.

(** [paginate] and [handleViewReceipt], as written. *)
Definition paginate (pageNumber : Z) : State → State :=
  setCurrentPage pageNumber.

Definition handleViewReceipt (receipt : Receipt.t) (s : State) : State :=
  setIsModalOpen true (setSelectedReceipt (Some receipt) s).

(** ** The outside world: toasts and the console *)

(** What [getAllReceipts] can reject with is [any] to the handler,
    which only reads [err.message].  On [null] and on [undefined] that
    read throws a [TypeError].  On every other value it gives the
    message: a string, or nothing the handler keeps (the property is
    absent or falsy; the error cell is a [string | null], which leaves
    no room for a message of another kind). *)
Inductive Nullish := JsNull | JsUndefined.

Record JsError := { message : option JsString.t }.

(** How the awaited promise settles. *)
Inductive Settled :=
| Fulfilled (data : list Receipt.t)
| Rejected (err : JsError)
| RejectedNullish (value : Nullish).

Inductive Toast := ToastError (text : JsString.t).

(** A [console.error(text, err)] line, with the value it was given. *)
Inductive ConsoleLine :=
  ConsoleError (text : JsString.t) (err : Nullish + JsError).

Record World := {
  state : State;
  toasts : list Toast;
  console : list ConsoleLine
}.

Definition initialWorld : World :=
  {| state := initialState; toasts := []; console := [] |}.

(** A step of the component: it updates its cells and may add to the
    logs.  [a >>> b] runs [a], then [b]. *)
Definition Action := World → World.

Definition andThen (a b : Action) : Action := λ w, b (a w).
Notation "a >>> b" := (andThen a b) (at level 62, right associativity).

Definition update (f : State → State) : Action :=
  λ w, {| state := f (state w); toasts := toasts w; console := console w |}.

Definition toast_error (text : JsString.t) : Action :=
  λ w, {| state := state w; toasts := toasts w ++ [ToastError text];
          console := console w |}.

Definition console_error (text : JsString.t) (err : Nullish + JsError) : Action :=
  λ w, {| state := state w; toasts := toasts w;
          console := console w ++ [ConsoleError text err] |}.

(** [err.message || fallback]: the message when it is there and is
    not the empty string, the fallback otherwise. *)
Definition message_or (err : JsError) (fallback : JsString.t) : JsString.t :=
  match message err with
  | Some m => if JsString.truthy m then m else fallback
  | None => fallback
  end.

(** [fetchReceipts] up to its [await]. *)
Definition fetchReceipts_pending : Action :=
  update (setIsLoading true) >>> update (setError None).

(** [fetchReceipts] from the moment the awaited promise settles:
    the rest of the [try] or the [catch], then the [finally].  When
    the rejection value is [null] or [undefined], the [catch] logs it
    and then throws on [err.message], so it neither sets the error nor
    raises the toast; the [finally] runs all the same. *)
Definition fetchReceipts_settled (outcome : Settled) : Action :=
  match outcome with
  | Fulfilled data => update (setReceipts data)
  | Rejected err =>
      console_error (JsString.lit "Error fetching receipts:") (inr err) >>>
      update (setError (Some (message_or err (JsString.lit "Failed to load receipts")))) >>>
      toast_error (JsString.lit "Failed to load receipts")
  | RejectedNullish value =>
      console_error (JsString.lit "Error fetching receipts:") (inl value)
  end >>>
  update (setIsLoading false).

Definition fetchReceipts (outcome : Settled) : Action :=
  fetchReceipts_pending >>> fetchReceipts_settled outcome.

(** ** What is rendered *)

(** One [<tr>] of the table body: its key, the six data cells (the
    status cell with the flag that picks its colour) and the receipt
    the "View" button passes to [handleViewReceipt]. *)
Record Row := {
  row_key : JsString.t;
  cell_id : JsString.t;
  cell_customer : JsString.t;
  cell_service : JsString.t;
  cell_price : JsString.t;
  cell_status : JsString.t;
  cell_status_completed : bool;
  cell_date : JsString.t;
  view_receipt : Receipt.t
}.

Inductive TableBody :=
| Rows (rows : list Row)
| EmptyRow (text : JsString.t).

Record PageButton := {
  button_key : Z;
  button_label : Z;
  button_active : bool;
  button_target : Z
}.

(** The pagination bar: the "Showing a to b of n results" line, the
    two arrows (whether disabled, and the page their handler passes to
    [paginate]) and the numbered buttons. *)
Record Pagination := {
  showing_from : Z;
  showing_to : Z;
  showing_of : Z;
  previous_disabled : bool;
  previous_target : Z;
  page_buttons : list PageButton;
  next_disabled : bool;
  next_target : Z
}.

Inductive Content :=
| Spinner
| Table (body : TableBody) (pagination : option Pagination).

Record View := {
  error_banner : option JsString.t;
  content : Content;
  modal_receipt : option Receipt.t;
  modal_isOpen : bool
}.

(** ** Dates as the component sees them *)

Inductive JsDate :=
| ValidDate (time : Z)
| InvalidDate.

Inductive Exception :=
| RangeError (text : JsString.t)
| TypeError.

Inductive Completion (A : Type) :=
| Return (a : A)
| Throw (e : Exception).
Arguments Return {A} a.
Arguments Throw {A} e.

(** How the promise of [fetchReceipts] itself ends, which nothing
    awaits: it is rejected with the [TypeError] thrown in the [catch]
    when the rejection value is [null] or [undefined], and fulfilled
    otherwise. *)
Definition fetchReceipts_completion (outcome : Settled) : Completion unit :=
  match outcome with
  | Fulfilled _ | Rejected _ => Return tt
  | RejectedNullish _ => Throw TypeError
  end.

(** ** Events

    What can happen to a mounted component: its mount effect starts
    the fetch, the fetch settles, the user types in the search box,
    clicks an arrow, a numbered button or a row's "View", or closes
    the modal. *)
Inductive Event :=
| Mounted
| FetchSettled (outcome : Settled)
| SearchTyped (value : JsString.t)
| PreviousClicked
| PageClicked (index : nat)
| NextClicked
| ViewClicked (row : nat)
| ModalClosed.

(** The events that come from the user, as opposed to the mount
    effect and the settling of its fetch. *)
Definition isUserEvent (e : Event) : bool :=
  match e with
  | Mounted | FetchSettled _ => false
  | _ => true
  end.

(** The clicks that go through [paginate]. *)
Definition isPageClick (e : Event) : bool :=
  match e with
  | PreviousClicked | PageClicked _ | NextClicked => true
  | _ => false
  end.

(** What the search box holds after a run of events that started
    with an empty box: the last value typed, if any. *)
Definition typedTerm (events : list Event) : JsString.t :=
  foldl (λ term e, match e with SearchTyped value => value | _ => term end)
        [] events.

(** ** Sample data

    Twenty-five receipts and one concrete choice for each built-in, to
    run the component on.  The first five customers are called Alice,
    the others Bob; the first receipt carries a completion date that
    is not a date. *)

Definition sampleReceipt (i : nat) : Receipt.t := {|
  Receipt._id := JsString.lit "rcpt-" ++ [97 + N.of_nat i]%N;
  Receipt.booking := {|
    Booking._id := JsString.lit "bkg-" ++ [65 + N.of_nat i]%N;
    Booking.user := {|
      User.name := if (i <? 5)%nat then JsString.lit "Alice" else JsString.lit "Bob";
      User.email := if (i <? 5)%nat then JsString.lit "alice@example.org"
                    else JsString.lit "bob@example.org"
    |};
    Booking.service := {| Service.name := JsString.lit "Deep Clean" |};
    Booking.status := JsString.lit "completed"
  |};
  Receipt.finalPrice := 120%float;
  Receipt.servicePersonnelName := JsString.lit "Dana";
  Receipt.completionDate :=
    if (i =? 0)%nat then JsString.lit "not-a-date"
    else JsString.lit "2024-03-05T14:30:00Z"
|}.

Definition sampleReceipts : list Receipt.t := sampleReceipt <$> seq 0 25.

(** A parser that knows the one timestamp of the sample data. *)
Definition sample_Date_parse (dateString : JsString.t) : option Z :=
  if bool_decide (dateString = JsString.lit "2024-03-05T14:30:00Z")
  then Some 1709649000000
  else None.

Definition sample_format_date (time : Z) : JsString.t :=
  if time =? 1709649000000 then JsString.lit "Mar 05, 2024 14:30"
  else JsString.lit "Jan 01, 1970 00:00".

Definition sample_format_USD (amount : float) : JsString.t :=
  if PrimFloat.eqb amount 120%float then JsString.lit "$120.00"
  else JsString.lit "$0.00".

(** Three sessions: the receipts arrive; then the user goes to page
    3; then the user searches for "ALICE" while on page 3. *)
Definition sessionLoaded : list Event :=
  [Mounted; FetchSettled (Fulfilled sampleReceipts)].

Definition sessionPage3 : list Event := sessionLoaded ++ [PageClicked 2].

Definition sessionSearchOnPage3 : list Event :=
  sessionPage3 ++ [SearchTyped (JsString.lit "ALICE")].

Section Component.

(** [String.prototype.toLowerCase]. *)
Variable toLowerCase : JsString.t → JsString.t.

(** The time value [new Date(dateString)] parses, [None] when the
    string is not a date (the time value is NaN). *)
Variable Date_parse : JsString.t → option Z.

(** date-fns' rendering of a valid date under the pattern
    ['MMM dd, yyyy HH:mm']. *)
Variable format_MMM_dd_yyyy_HH_mm : Z → JsString.t.

(** [new Intl.NumberFormat('en-US', {style: 'currency', currency:
    'USD'}).format]. *)
Variable format_USD : float → JsString.t.

Definition newDate (dateString : JsString.t) : JsDate :=
  match Date_parse dateString with
  | Some time => ValidDate time
  | None => InvalidDate
  end.

(** date-fns' [format(date, 'MMM dd, yyyy HH:mm')]: it refuses an
    invalid date with a [RangeError]. *)
Definition format (date : JsDate) : Completion JsString.t :=
  match date with
  | ValidDate time => Return (format_MMM_dd_yyyy_HH_mm time)
  | InvalidDate => Throw (RangeError (JsString.lit "Invalid time value"))
  end.

Definition formatDate (dateString : JsString.t) : JsString.t :=
  match format (newDate dateString) with
  | Return formatted => formatted
  | Throw _ => dateString
  end.

Definition formatCurrency (amount : float) : JsString.t := format_USD amount.

(** *** Filter *)

(** The callback of [receipts.filter]. *)
Definition receiptMatches (searchTerm : JsString.t) (receipt : Receipt.t) : bool :=
  let searchLower := toLowerCase searchTerm in
  JsString.includes (toLowerCase (Receipt._id receipt)) searchLower ||
  JsString.includes (toLowerCase (Booking._id (Receipt.booking receipt))) searchLower ||
  JsString.includes (toLowerCase (User.name (Booking.user (Receipt.booking receipt)))) searchLower ||
  JsString.includes (toLowerCase (User.email (Booking.user (Receipt.booking receipt)))) searchLower ||
  JsString.includes (toLowerCase (Service.name (Booking.service (Receipt.booking receipt)))) searchLower ||
  JsString.includes (toLowerCase (Receipt.servicePersonnelName receipt)) searchLower ||
  JsString.includes (toLowerCase (Booking.status (Receipt.booking receipt))) searchLower.

Definition filteredReceipts (s : State) : list Receipt.t :=
  filter (λ receipt, receiptMatches (searchTerm s) receipt) (receipts s).

(** *** Paginator *)

Definition indexOfLastReceipt (s : State) : Z := currentPage s * itemsPerPage.

Definition indexOfFirstReceipt (s : State) : Z :=
  indexOfLastReceipt s - itemsPerPage.

Definition currentReceipts (s : State) : list Receipt.t :=
  JsArray.slice (filteredReceipts s) (indexOfFirstReceipt s) (indexOfLastReceipt s).

(** [filteredReceipts.length]. *)
Definition filteredLength (s : State) : Z := Z.of_nat (length (filteredReceipts s)).

(** [Math.ceil(filteredReceipts.length / itemsPerPage)], which the
    source writes out at each of its three uses. *)
Definition pageCount (s : State) : Z :=
  JsArray.ceil_div (filteredLength s) itemsPerPage.

(** The page the "previous" arrow passes to [paginate]. *)
Definition previousPage (s : State) : Z :=
  if 1 <? currentPage s then currentPage s - 1 else 1.

(** The page the "next" arrow passes to [paginate]. *)
Definition nextPage (s : State) : Z :=
  if currentPage s <? pageCount s then currentPage s + 1 else currentPage s.

(** [Array.from({ length: pageCount }).map((_, index) => ...)]. *)
Definition pageButtons (s : State) : list PageButton :=
  (λ index, {| button_key := index;
               button_label := index + 1;
               button_active := bool_decide (currentPage s = index + 1);
               button_target := index + 1 |})
  <$> seqZ 0 (pageCount s).

(** *** The tree *)

Definition renderRow (receipt : Receipt.t) : Row := {|
  row_key := Receipt._id receipt;
  cell_id := Receipt._id receipt;
  cell_customer := User.name (Booking.user (Receipt.booking receipt));
  cell_service := Service.name (Booking.service (Receipt.booking receipt));
  cell_price := formatCurrency (Receipt.finalPrice receipt);
  cell_status := Booking.status (Receipt.booking receipt);
  cell_status_completed :=
    bool_decide (Booking.status (Receipt.booking receipt) = JsString.lit "completed");
  cell_date := formatDate (Receipt.completionDate receipt);
  view_receipt := receipt
|}.

(** The children of [<tbody>]. *)
Definition tableBody (s : State) : TableBody :=
  if (0 <? length (currentReceipts s))%nat
  then Rows (renderRow <$> currentReceipts s)
  else EmptyRow (if JsString.truthy (searchTerm s)
                 then JsString.lit "No receipts found matching your search."
                 else JsString.lit "No receipts found.").

(** The bar under the table, present when something passed the
    filter. *)
Definition pagination (s : State) : option Pagination :=
  if 0 <? filteredLength s
  then Some {|
    showing_from := indexOfFirstReceipt s + 1;
    showing_to := if filteredLength s <? indexOfLastReceipt s
                   then filteredLength s else indexOfLastReceipt s;
    showing_of := filteredLength s;
    previous_disabled := bool_decide (currentPage s = 1);
    previous_target := previousPage s;
    page_buttons := pageButtons s;
    next_disabled := bool_decide (currentPage s = pageCount s);
    next_target := nextPage s
  |}
  else None.

Definition render (s : State) : View := {|
  error_banner :=
    match error s with
    | Some text => if JsString.truthy text then Some text else None
    | None => None
    end;
  content := if isLoading s then Spinner else Table (tableBody s) (pagination s);
  modal_receipt := selectedReceipt s;
  modal_isOpen := isModalOpen s
|}.

(** *** Events

    A click reaches a handler only through an element that is in the
    tree and is not disabled. *)

Definition shownPagination (s : State) : option Pagination :=
  match content (render s) with
  | Table _ bar => bar
  | Spinner => None
  end.

Definition shownRows (s : State) : list Row :=
  match content (render s) with
  | Table (Rows rows) _ => rows
  | _ => []
  end.

Definition dispatch (e : Event) (w : World) : World :=
  match e with
  | Mounted => fetchReceipts_pending w
  | FetchSettled outcome => fetchReceipts_settled outcome w
  | SearchTyped value => update (setSearchTerm value) w
  | PreviousClicked =>
      match shownPagination (state w) with
      | Some bar =>
          if previous_disabled bar then w
          else update (paginate (previous_target bar)) w
      | None => w
      end
  | PageClicked index =>
      match shownPagination (state w) ≫= λ bar, page_buttons bar !! index with
      | Some button => update (paginate (button_target button)) w
      | None => w
      end
  | NextClicked =>
      match shownPagination (state w) with
      | Some bar =>
          if next_disabled bar then w
          else update (paginate (next_target bar)) w
      | None => w
      end
  | ViewClicked row =>
      match shownRows (state w) !! row with
      | Some r => update (handleViewReceipt (view_receipt r)) w
      | None => w
      end
  | ModalClosed => update (setIsModalOpen false) w
  end.

Definition run (events : list Event) (w : World) : World :=
  foldl (λ w e, dispatch e w) w events.

(** *** The states a mounted component goes through

    The mount effect runs once, first; every later event is one of
    the others. *)
Inductive Reachable : World → Prop :=
| reach_mount : Reachable (dispatch Mounted initialWorld)
| reach_event e w : Reachable w → e ≠ Mounted → Reachable (dispatch e w).

(** What holds of the cells in every such state: the page number is
    at least 1, and while the fetch is pending no receipt is held. *)
Definition wellFormed (s : State) : Prop :=
  1 ≤ currentPage s ∧ (isLoading s = true → receipts s = []).

(** The page buttons that are in the tree. *)
Definition shownPageButtons (s : State) : list PageButton :=
  match shownPagination s with
  | Some bar => page_buttons bar
  | None => []
  end.

(** ** Properties *)

(** *** Strings *)

Lemma startsWith_spec (s search : JsString.t) :
  JsString.startsWith s search = true ↔ ∃ after, s = search ++ after.
Proof.
  revert s. induction search as [|c search IH]; intros s; simpl.
  - split; [intros _; by exists s | done].
  - destruct s as [|d s].
    + split; [done | by intros [after ?]].
    + rewrite andb_true_iff, N.eqb_eq, IH. split.
      * intros [-> [after ->]]. by exists after.
      * intros [after Heq]. injection Heq as -> ->. eauto.
Qed.

Lemma includes_spec (s search : JsString.t) :
  JsString.includes s search = true ↔ JsString.substring search s.
Proof.
  unfold JsString.substring. induction s as [|d s IH]; simpl.
  - rewrite orb_false_r, startsWith_spec. split.
    + intros [after ->]. by exists [], after.
    + intros [before [after Heq]]. symmetry in Heq.
      apply app_eq_nil in Heq as [-> Heq]. eauto.
  - rewrite orb_true_iff, startsWith_spec, IH. split.
    + intros [[after ->] | (before & after & ->)].
      * by exists [], after.
      * by exists (d :: before), after.
    + intros [[|d' before] [after Heq]]; simpl in Heq.
      * left. eauto.
      * right. injection Heq as -> ->. eauto.
Qed.

Lemma includes_empty (s : JsString.t) : JsString.includes s [] = true.
Proof. by destruct s. Qed.

(** *** Arrays and page arithmetic *)

Lemma ceil_div_spec n d :
  0 < d → d * (JsArray.ceil_div n d - 1) < n ≤ d * JsArray.ceil_div n d.
Proof.
  intros Hd. unfold JsArray.ceil_div.
  pose proof (Z.div_mod (n + d - 1) d) as Hdm.
  pose proof (Z.mod_pos_bound (n + d - 1) d Hd). lia.
Qed.

Lemma ceil_div_zero d : 0 < d → JsArray.ceil_div 0 d = 0.
Proof. intros Hd. pose proof (ceil_div_spec 0 d Hd). nia. Qed.

Lemma slice_nonneg {A} (l : list A) (start end_ : Z) :
  0 ≤ start ≤ end_ →
  JsArray.slice l start end_
  = take (Z.to_nat (end_ - start)) (drop (Z.to_nat start) l).
Proof.
  intros H. unfold JsArray.slice.
  destruct (Z.ltb_spec start 0), (Z.ltb_spec end_ 0); try lia.
  destruct (Z.le_gt_cases start (Z.of_nat (length l))) as [Hs|Hs].
  - rewrite (Z.min_l start) by lia.
    destruct (Z.le_gt_cases end_ (Z.of_nat (length l))).
    + by rewrite Z.min_l by lia.
    + rewrite Z.min_r by lia.
      rewrite !take_ge; [done | rewrite length_drop; lia ..].
  - rewrite !(drop_ge l) by lia. by rewrite !take_nil.
Qed.

Lemma slice_nil {A} (start end_ : Z) : JsArray.slice (@nil A) start end_ = [].
Proof. unfold JsArray.slice. by rewrite drop_nil, take_nil. Qed.

(** Cutting a list into consecutive windows of [n] elements and
    gluing enough of them back together gives the list. *)
Lemma concat_windows {A} (n k : nat) (l : list A) :
  (length l ≤ k * n)%nat →
  concat ((λ i, take n (drop (i * n) l)) <$> seq 0 k) = l.
Proof.
  revert l. induction k as [|k IH]; intros l Hlen; simpl.
  - destruct l as [|x l]; [done | exfalso; simpl in Hlen; lia].
  - rewrite <- seq_shift, <- list_fmap_compose.
    rewrite <- (take_drop n l) at 2. f_equal.
    rewrite <- (IH (drop n l)) at 1 by (rewrite length_drop; lia).
    f_equal. apply list_fmap_ext. intros _ i _. simpl.
    by rewrite drop_drop.
Qed.

(** A sublist sits in the longer list at increasing positions. *)
Lemma sublist_positions {A} (l1 l2 : list A) :
  l1 `sublist_of` l2 →
  ∃ pos : nat → nat,
    (∀ i j, (i < j)%nat → (pos i < pos j)%nat) ∧
    (∀ i x, l1 !! i = Some x → l2 !! pos i = Some x).
Proof.
  induction 1 as [|x l1 l2 _ [pos [Hmono Hpos]]|x l1 l2 _ [pos [Hmono Hpos]]].
  - exists id. split; [auto | done].
  - exists (λ i, match i with O => O | S i' => S (pos i') end). split.
    + intros [|i] [|j] Hij; try lia. specialize (Hmono i j). lia.
    + intros [|i] y; simpl; auto.
  - exists (λ i, S (pos i)). split.
    + intros i j Hij. specialize (Hmono i j). lia.
    + intros i y Hi. simpl. auto.
Qed.

(** *** Filter *)

Lemma filter_all {A} (P : A → Prop) `{!∀ x, Decision (P x)} (l : list A) :
  (∀ x, P x) → filter P l = l.
Proof.
  intros HP. induction l as [|x l IH]; [done|].
  by rewrite filter_cons_True, IH.
Qed.

Lemma filteredReceipts_state (s : State) (C : list Receipt.t) :
  filteredReceipts (setReceipts C s)
  = filter (λ receipt, receiptMatches (searchTerm s) receipt) C.
Proof. done. Qed.

(** C1. A receipt is kept by the filter exactly when it is one of
    the held receipts and the lower-cased search term is a substring
    of the lower-cased receipt id, booking id, customer name,
    customer e-mail, service name, service-personnel name or booking
    status; a receipt for which none of the seven holds is not
    kept. *)
Theorem filteredReceipts_keeps_exactly_matches (s : State) (receipt : Receipt.t) :
  receipt ∈ filteredReceipts s ↔
  receipt ∈ receipts s ∧
  let t := toLowerCase (searchTerm s) in
  (JsString.substring t (toLowerCase (Receipt._id receipt)) ∨
   JsString.substring t (toLowerCase (Booking._id (Receipt.booking receipt))) ∨
   JsString.substring t (toLowerCase (User.name (Booking.user (Receipt.booking receipt)))) ∨
   JsString.substring t (toLowerCase (User.email (Booking.user (Receipt.booking receipt)))) ∨
   JsString.substring t (toLowerCase (Service.name (Booking.service (Receipt.booking receipt)))) ∨
   JsString.substring t (toLowerCase (Receipt.servicePersonnelName receipt)) ∨
   JsString.substring t (toLowerCase (Booking.status (Receipt.booking receipt)))).
Proof.
  unfold filteredReceipts. rewrite list_elem_of_filter.
  unfold receiptMatches. cbv zeta.
  rewrite !orb_True, !Is_true_true, !includes_spec. tauto.
Qed.

(** C4. The filtered collection is a subsequence of the held one:
    every kept receipt is a held receipt, and the kept receipts sit
    in the held collection at strictly increasing positions, so
    nothing is reordered and nothing is repeated. *)
Theorem filteredReceipts_is_subsequence (s : State) :
  filteredReceipts s `sublist_of` receipts s ∧
  (∀ receipt, receipt ∈ filteredReceipts s → receipt ∈ receipts s) ∧
  ∃ pos : nat → nat,
    (∀ i j, (i < j)%nat → (pos i < pos j)%nat) ∧
    (∀ i receipt, filteredReceipts s !! i = Some receipt →
                  receipts s !! pos i = Some receipt).
Proof.
  assert (filteredReceipts s `sublist_of` receipts s) as Hsub
    by (unfold filteredReceipts; apply sublist_filter).
  split_and!; [done | | by apply sublist_positions].
  intros receipt. by apply sublist_subseteq.
Qed.

(** C7. With the empty search term every receipt passes and the
    filtered collection is the held collection.  (The lower-casing of
    the empty string is the empty string.) *)
Theorem filteredReceipts_empty_term (s : State) :
  toLowerCase [] = [] →
  searchTerm s = [] →
  (∀ receipt, receiptMatches (searchTerm s) receipt = true) ∧
  filteredReceipts s = receipts s.
Proof.
  intros Hlower Hterm.
  assert (∀ receipt, receiptMatches (searchTerm s) receipt = true) as Hall.
  { intros receipt. unfold receiptMatches. cbv zeta.
    by rewrite Hterm, Hlower, !includes_empty. }
  split; [done|]. unfold filteredReceipts. apply filter_all.
  intros receipt. by rewrite Hall.
Qed.

(** C8. Filtering what the filter kept, with the same search term,
    keeps all of it. *)
Theorem filteredReceipts_idempotent (s : State) :
  filteredReceipts (setReceipts (filteredReceipts s) s) = filteredReceipts s.
Proof.
  rewrite filteredReceipts_state. unfold filteredReceipts.
  rewrite list_filter_filter. apply list_filter_iff. tauto.
Qed.

(** *** Paginator *)

Lemma pageCount_spec (s : State) :
  10 * (pageCount s - 1) < filteredLength s ≤ 10 * pageCount s.
Proof. unfold pageCount, itemsPerPage. by apply ceil_div_spec. Qed.

Lemma pageCount_empty (s : State) : filteredReceipts s = [] → pageCount s = 0.
Proof.
  intros Hnil. unfold pageCount, filteredLength. rewrite Hnil.
  by apply ceil_div_zero.
Qed.

Lemma currentReceipts_window (s : State) :
  1 ≤ currentPage s →
  currentReceipts s
  = take 10 (drop (Z.to_nat ((currentPage s - 1) * 10)) (filteredReceipts s)).
Proof.
  intros Hp. unfold currentReceipts, indexOfFirstReceipt, indexOfLastReceipt,
    itemsPerPage.
  rewrite slice_nonneg by lia.
  replace (currentPage s * 10 - (currentPage s * 10 - 10)) with 10 by lia.
  by replace (currentPage s * 10 - 10) with ((currentPage s - 1) * 10) by lia.
Qed.

Lemma length_pageButtons (s : State) :
  length (pageButtons s) = Z.to_nat (pageCount s).
Proof. unfold pageButtons. by rewrite length_fmap, length_seqZ. Qed.

Lemma shownPagination_Some (s : State) (bar : Pagination) :
  shownPagination s = Some bar →
  isLoading s = false ∧ 0 < filteredLength s ∧
  previous_disabled bar = bool_decide (currentPage s = 1) ∧
  previous_target bar = previousPage s ∧
  page_buttons bar = pageButtons s ∧
  next_disabled bar = bool_decide (currentPage s = pageCount s) ∧
  next_target bar = nextPage s.
Proof.
  unfold shownPagination, render, pagination. simpl.
  destruct (isLoading s); [done|].
  destruct (Z.ltb_spec 0 (filteredLength s)); [|done].
  intros [= <-]. by split_and!.
Qed.

Lemma previousPage_ge_1 (s : State) : 1 ≤ previousPage s.
Proof. unfold previousPage. destruct (Z.ltb_spec 1 (currentPage s)); lia. Qed.

Lemma nextPage_ge (s : State) : currentPage s ≤ nextPage s.
Proof.
  unfold nextPage. destruct (Z.ltb_spec (currentPage s) (pageCount s)); lia.
Qed.

Lemma pageButtons_target (s : State) (index : nat) (button : PageButton) :
  pageButtons s !! index = Some button → 1 ≤ button_target button.
Proof.
  unfold pageButtons. rewrite list_lookup_fmap.
  destruct (seqZ 0 (pageCount s) !! index) as [i|] eqn:Hi; [|done].
  apply lookup_seqZ in Hi as [-> _]. intros [= <-]. simpl. lia.
Qed.

(** In every state a mounted component goes through, the page number
    is at least 1 and nothing is held while the fetch is pending. *)
Lemma Reachable_wellFormed (w : World) : Reachable w → wellFormed (state w).
Proof.
  induction 1 as [|e w _ [Hpage Hload] Hne]; [by split|].
  destruct e; try done; simpl.
  - destruct outcome; by split.
  - destruct (shownPagination (state w)) as [bar|] eqn:Hbar; [|by split].
    apply shownPagination_Some in Hbar as (_ & _ & _ & -> & _).
    destruct (previous_disabled bar); [by split|].
    split; [apply previousPage_ge_1 | done].
  - destruct (shownPagination (state w)) as [bar|] eqn:Hbar; simpl;
      [|by split].
    apply shownPagination_Some in Hbar as (_ & _ & _ & _ & -> & _).
    destruct (pageButtons (state w) !! index) as [button|] eqn:Hb;
      [|by split].
    split; [by eapply pageButtons_target | done].
  - destruct (shownPagination (state w)) as [bar|] eqn:Hbar; [|by split].
    apply shownPagination_Some in Hbar as (_ & _ & _ & _ & _ & _ & ->).
    destruct (next_disabled bar); [by split|].
    split; [|done]. simpl. pose proof (nextPage_ge (state w)). lia.
  - destruct (shownRows (state w) !! row); by split.
Qed.

Lemma length_shownPageButtons (s : State) :
  wellFormed s → length (shownPageButtons s) = Z.to_nat (pageCount s).
Proof.
  intros [_ Hload]. unfold shownPageButtons, shownPagination, render. simpl.
  destruct (isLoading s) eqn:Hl.
  - rewrite pageCount_empty; [done|].
    unfold filteredReceipts. by rewrite Hload.
  - unfold pagination. destruct (Z.ltb_spec 0 (filteredLength s)) as [|Hn].
    + apply length_pageButtons.
    + rewrite pageCount_empty; [done|].
      apply length_zero_iff_nil. unfold filteredLength in Hn. lia.
Qed.

Lemma concat_pages (s : State) :
  concat ((λ page, currentReceipts (paginate page s)) <$> seqZ 1 (pageCount s))
  = filteredReceipts s.
Proof.
  unfold seqZ. rewrite <- list_fmap_compose.
  etrans; [|apply (concat_windows 10 (Z.to_nat (pageCount s)))].
  - f_equal. apply list_fmap_ext. intros _ i _. simpl.
    rewrite currentReceipts_window by (simpl; lia). simpl.
    do 2 f_equal. lia.
  - pose proof (pageCount_spec s). unfold filteredLength in *. lia.
Qed.

(** C2. On page [p >= 1] of a filtered collection of length [N] the
    paginator shows the receipts at positions [(p-1)*10 .. p*10 - 1]
    of it (those that exist); the number of numbered page buttons is
    the ceiling of [N / 10], both as computed and as present in the
    tree; and the slices of pages 1 to that ceiling, one after the
    other, are the filtered collection. *)
Theorem paginator_slices_and_pages (s : State) :
  wellFormed s →
  let p := currentPage s in
  let first := Z.to_nat ((p - 1) * 10) in
  currentReceipts s = take 10 (drop first (filteredReceipts s)) ∧
  (∀ i : nat, (i < 10)%nat →
     currentReceipts s !! i = filteredReceipts s !! (first + i)%nat) ∧
  (length (currentReceipts s) ≤ 10)%nat ∧
  10 * (pageCount s - 1) < filteredLength s ≤ 10 * pageCount s ∧
  length (pageButtons s) = Z.to_nat (pageCount s) ∧
  length (shownPageButtons s) = Z.to_nat (pageCount s) ∧
  concat ((λ page, currentReceipts (paginate page s)) <$> seqZ 1 (pageCount s))
  = filteredReceipts s.
Proof.
  intros Hwf p first. pose proof Hwf as [Hp _].
  rewrite currentReceipts_window by done. fold p first.
  split_and!.
  - done.
  - intros i Hi. by rewrite lookup_take_lt, lookup_drop.
  - rewrite length_take. lia.
  - apply pageCount_spec.
  - apply pageCount_spec.
  - apply length_pageButtons.
  - by apply length_shownPageButtons.
  - apply concat_pages.
Qed.

Lemma dispatch_PreviousClicked (w : World) :
  is_Some (shownPagination (state w)) →
  currentPage (state (dispatch PreviousClicked w)) = previousPage (state w).
Proof.
  intros [bar Hbar]. simpl. rewrite Hbar.
  apply shownPagination_Some in Hbar as (_ & _ & -> & -> & _).
  case_bool_decide as Hp; [|done].
  unfold previousPage. by rewrite Hp.
Qed.

Lemma dispatch_NextClicked (w : World) :
  is_Some (shownPagination (state w)) →
  currentPage (state (dispatch NextClicked w)) = nextPage (state w).
Proof.
  intros [bar Hbar]. simpl. rewrite Hbar.
  apply shownPagination_Some in Hbar as (_ & _ & _ & _ & _ & -> & ->).
  case_bool_decide as Hp; [|done].
  unfold nextPage. by rewrite <- Hp, Z.ltb_irrefl.
Qed.

Lemma dispatch_NextClicked_last (w : World) :
  currentPage (state w) = pageCount (state w) → dispatch NextClicked w = w.
Proof.
  intros Hp. simpl.
  destruct (shownPagination (state w)) as [bar|] eqn:Hbar; [|done].
  apply shownPagination_Some in Hbar as (_ & _ & _ & _ & _ & -> & _).
  by rewrite bool_decide_eq_true_2.
Qed.

(** C3 (as the code has it).  With [p] the current page and [L] the
    ceiling of [N / 10]: the "previous" arrow sets the page to [p - 1]
    when [p > 1] and to 1 otherwise, which is [p - 1] clamped from
    below at 1; the "next" arrow sets the page to [p + 1] when
    [p < L] and leaves it at [p] otherwise.  For a page within
    [1 .. L] that is [p + 1] clamped from above at [L]; on the last
    page a click on "next" changes nothing at all. *)
Theorem arrows_previous_next (w : World) :
  let s := state w in
  let p := currentPage s in
  let L := pageCount s in
  previousPage s = Z.max 1 (p - 1) ∧
  (1 < p → previousPage s = p - 1) ∧
  (p < L → nextPage s = p + 1) ∧
  (L ≤ p → nextPage s = p) ∧
  (p ≤ L → nextPage s = Z.min L (p + 1)) ∧
  (is_Some (shownPagination s) →
     currentPage (state (dispatch PreviousClicked w)) = previousPage s ∧
     currentPage (state (dispatch NextClicked w)) = nextPage s) ∧
  (p = L → dispatch NextClicked w = w).
Proof.
  intros s p L.
  assert (previousPage s = if 1 <? p then p - 1 else 1) as Hprev by done.
  assert (nextPage s = if p <? L then p + 1 else p) as Hnext by done.
  destruct (Z.ltb_spec 1 p), (Z.ltb_spec p L);
    (split_and!; [lia .. | | apply dispatch_NextClicked_last]);
    (intros Hbar; split;
      [by apply dispatch_PreviousClicked | by apply dispatch_NextClicked]).
Qed.

(** *** Empty result and search *)

Lemma currentReceipts_empty (s : State) :
  filteredReceipts s = [] → currentReceipts s = [].
Proof. intros Hnil. unfold currentReceipts. rewrite Hnil. apply slice_nil. Qed.

Lemma pagination_empty (s : State) : filteredReceipts s = [] → pagination s = None.
Proof. intros Hnil. unfold pagination, filteredLength. by rewrite Hnil. Qed.

Lemma tableBody_no_rows (s : State) :
  currentReceipts s = [] →
  ∃ text, tableBody s = EmptyRow text ∧
          (searchTerm s ≠ [] →
             text = JsString.lit "No receipts found matching your search.") ∧
          (searchTerm s = [] → text = JsString.lit "No receipts found.").
Proof.
  intros Hnil. unfold tableBody. rewrite Hnil. simpl.
  destruct (searchTerm s) as [|c term]; simpl; eexists; by split_and!.
Qed.

Lemma shownRows_no_rows (s : State) : currentReceipts s = [] → shownRows s = [].
Proof.
  intros Hnil. unfold shownRows, render. simpl. destruct (isLoading s); [done|].
  by destruct (tableBody_no_rows s Hnil) as (text & -> & _).
Qed.

(** C9 (as the code has it).  When nothing passes the filter there
    are 0 pages and no pagination bar and no page button in the tree,
    whether the component is loading or not; and when, besides, it is
    not loading, what it shows is the table with a body of one row
    that reads "No receipts found matching your search." if the search
    term is not empty and "No receipts found." if it is.  (While
    loading, the spinner takes the place of the table.) *)
Theorem empty_result_view (s : State) :
  filteredReceipts s = [] →
  (pageCount s = 0 ∧
   shownPagination s = None ∧
   shownPageButtons s = []) ∧
  (isLoading s = false →
   ∃ text,
     content (render s) = Table (EmptyRow text) None ∧
     (searchTerm s ≠ [] →
        text = JsString.lit "No receipts found matching your search.") ∧
     (searchTerm s = [] → text = JsString.lit "No receipts found.")).
Proof.
  intros Hnil.
  destruct (tableBody_no_rows s (currentReceipts_empty s Hnil))
    as (text & Hbody & Hsome & Hnone).
  unfold shownPageButtons, shownPagination, render. simpl.
  rewrite Hbody, (pagination_empty s Hnil). split.
  - split_and!; [by apply pageCount_empty | by destruct (isLoading s) ..].
  - intros ->. exists text. by split_and!.
Qed.

(** C10. Typing in the search box sets the search term and nothing
    else: the page number, the held receipts, the flags, the error,
    the selection and the logs stay as they were.  So when the new
    filtered collection is not empty but ends before the current
    page begins, the page slice is empty, no row is in the tree,
    though page 1 of the same collection has rows. *)
Theorem search_keeps_currentPage (w : World) (value : JsString.t) :
  let w' := dispatch (SearchTyped value) w in
  let s := state w in
  let s' := state w' in
  (searchTerm s' = value ∧
   currentPage s' = currentPage s ∧
   receipts s' = receipts s ∧
   isLoading s' = isLoading s ∧
   error s' = error s ∧
   selectedReceipt s' = selectedReceipt s ∧
   isModalOpen s' = isModalOpen s ∧
   toasts w' = toasts w ∧
   console w' = console w) ∧
  (0 < filteredLength s' ≤ (currentPage s - 1) * 10 →
   currentReceipts s' = [] ∧
   shownRows s' = [] ∧
   currentReceipts (paginate 1 s') ≠ []).
Proof.
  intros w' s s'. split; [by split_and!|]. intros [Hpos Hle].
  assert (currentPage s' = currentPage s) as Hsame by done.
  unfold filteredLength in Hpos, Hle.
  assert (1 ≤ currentPage s') as Hp by lia.
  assert (currentReceipts s' = []) as Hnil.
  { rewrite currentReceipts_window by done. rewrite drop_ge; [done|]. lia. }
  split_and!; [done | |].
  - by apply shownRows_no_rows.
  - rewrite currentReceipts_window by (simpl; lia). simpl.
    destruct (filteredReceipts s') as [|r l] eqn:Hf; [simpl in Hpos; lia|].
    change (filteredReceipts (paginate 1 s')) with (filteredReceipts s').
    by rewrite Hf.
Qed.

(** *** Loader *)

Lemma message_or_spec (err : JsError) (fallback : JsString.t) :
  fallback ≠ [] →
  message_or err fallback ≠ [] ∧
  (∀ m, message err = Some m → m ≠ [] → message_or err fallback = m) ∧
  (message err = None ∨ message err = Some [] →
     message_or err fallback = fallback).
Proof.
  intros Hfb. unfold message_or.
  destruct (message err) as [[|c m]|]; simpl; split_and!; try done.
  - by intros m [= <-].
  - by intros m' [= <-].
  - by intros [|].
Qed.

(** X20. When the fetch fails with a value other than [null] and
    [undefined], the error cell holds a non-empty text,
    which is the failure's message when there is a non-empty one and
    "Failed to load receipts" otherwise; that text is in the banner;
    one error toast has been added; the held receipts are the ones
    held before; the loading flag is off.  When the fetch succeeds,
    the held receipts are the fetched ones, the error cell is empty
    and no banner shows, no toast has been added and the loading
    flag is off.  While the fetch is pending the flag is on. *)
Theorem fetchReceipts_outcomes (w : World) :
  let fallback := JsString.lit "Failed to load receipts" in
  isLoading (state (fetchReceipts_pending w)) = true ∧
  (∀ err : JsError,
     let w' := fetchReceipts (Rejected err) w in
     ∃ text,
       error (state w') = Some text ∧
       text ≠ [] ∧
       (∀ m, message err = Some m → m ≠ [] → text = m) ∧
       (message err = None ∨ message err = Some [] → text = fallback) ∧
       error_banner (render (state w')) = Some text ∧
       toasts w' = toasts w ++ [ToastError fallback] ∧
       receipts (state w') = receipts (state w) ∧
       isLoading (state w') = false) ∧
  (∀ data : list Receipt.t,
     let w' := fetchReceipts (Fulfilled data) w in
     receipts (state w') = data ∧
     error (state w') = None ∧
     error_banner (render (state w')) = None ∧
     toasts w' = toasts w ∧
     isLoading (state w') = false).
Proof.
  intros fallback. split_and!; [done | | by intros data].
  intros err w'. exists (message_or err fallback).
  destruct (message_or_spec err fallback) as (Hne & Hmsg & Hfb); [done|].
  split_and!; try done. simpl. fold fallback.
  by destruct (message_or err fallback).
Qed.

(** C5 (where the code departs from it).  When the fetch fails with
    [null] or with [undefined], the [catch] logs the value and then
    throws on reading its message: no error is recorded, no banner
    shows, no toast is raised.  The held receipts stay as they were,
    the loading flag is off, and the promise of [fetchReceipts] is
    rejected with the [TypeError]. *)
Theorem fetchReceipts_nullish_rejection (w : World) (value : Nullish) :
  let w' := fetchReceipts (RejectedNullish value) w in
  error (state w') = None ∧
  error_banner (render (state w')) = None ∧
  toasts w' = toasts w ∧
  console w'
  = console w ++ [ConsoleError (JsString.lit "Error fetching receipts:") (inl value)] ∧
  receipts (state w') = receipts (state w) ∧
  isLoading (state w') = false ∧
  fetchReceipts_completion (RejectedNullish value) = Throw TypeError.
Proof. intros w'. by split_and!. Qed.

(** *** Date cell *)

Lemma shownRows_not_loading (s : State) :
  isLoading s = false → shownRows s = renderRow <$> currentReceipts s.
Proof.
  intros Hload. unfold shownRows, render, tableBody. simpl. rewrite Hload.
  by destruct (currentReceipts s).
Qed.

(** C6. For a completion-date string that parses, [formatDate] gives
    the formatter's text for the parsed time; for one that does not,
    it gives the string back as it is.  Either way the receipt's row
    is in the table, with that text in its date cell. *)
Theorem formatDate_or_raw (dateString : JsString.t) :
  (∀ time, Date_parse dateString = Some time →
           formatDate dateString = format_MMM_dd_yyyy_HH_mm time) ∧
  (Date_parse dateString = None → formatDate dateString = dateString) ∧
  (∀ (s : State) (receipt : Receipt.t),
     Receipt.completionDate receipt = dateString →
     isLoading s = false →
     receipt ∈ currentReceipts s →
     ∃ row, row ∈ shownRows s ∧
            view_receipt row = receipt ∧
            cell_date row = formatDate dateString).
Proof.
  unfold formatDate at 1 2, format, newDate. split_and!.
  - by intros time ->.
  - by intros ->.
  - intros s receipt <- Hload Hin. exists (renderRow receipt).
    rewrite shownRows_not_loading by done.
    split_and!; [|done..]. by apply list_elem_of_fmap_2.
Qed.

(** *** Sessions *)

Lemma run_snoc (events : list Event) (e : Event) (w : World) :
  run (events ++ [e]) w = dispatch e (run events w).
Proof. unfold run. by rewrite foldl_app. Qed.

(** A session that starts with the mount and has no other mount in
    it ends in a reachable state. *)
Lemma Reachable_run (events : list Event) :
  Forall (λ e, e ≠ Mounted) events →
  Reachable (run (Mounted :: events) initialWorld).
Proof.
  induction events as [|e events IH] using rev_ind; intros Hall.
  - apply reach_mount.
  - apply Forall_app in Hall as [Hall He]. apply Forall_inv in He.
    rewrite app_comm_cons, run_snoc. apply reach_event; [by apply IH | exact He].
Qed.

(** ** Further properties of the component *)

(** *** What a page holds *)

Lemma slice_sublist {A} (l : list A) (start end_ : Z) :
  JsArray.slice l start end_ `sublist_of` l.
Proof.
  unfold JsArray.slice. cbv zeta.
  etrans; [apply sublist_take | apply sublist_drop].
Qed.

(** X1. Whatever the page number is, in range or not, the page slice
    is a subsequence of the filtered collection: every receipt on the
    page is a held receipt that passes the search. *)
Theorem currentReceipts_match_search (s : State) :
  currentReceipts s `sublist_of` filteredReceipts s ∧
  ∀ receipt, receipt ∈ currentReceipts s →
             receipt ∈ receipts s ∧ receiptMatches (searchTerm s) receipt = true.
Proof.
  assert (currentReceipts s `sublist_of` filteredReceipts s) as Hsub
    by apply slice_sublist.
  split; [done|]. intros receipt Hin.
  apply (sublist_subseteq _ _ Hsub) in Hin.
  unfold filteredReceipts in Hin. apply list_elem_of_filter in Hin as [Hm Hin].
  split; [done | by apply Is_true_true].
Qed.

Lemma length_currentReceipts (s : State) :
  1 ≤ currentPage s ≤ pageCount s →
  Z.of_nat (length (currentReceipts s))
  = Z.min 10 (filteredLength s - (currentPage s - 1) * 10) ∧
  0 < filteredLength s - (currentPage s - 1) * 10.
Proof.
  intros [Hp HpL]. pose proof (pageCount_spec s) as HL.
  rewrite currentReceipts_window by done.
  rewrite length_take, length_drop. unfold filteredLength in *. lia.
Qed.

Lemma currentReceipts_in_range_nonempty (s : State) :
  1 ≤ currentPage s ≤ pageCount s → currentReceipts s ≠ [].
Proof.
  intros Hrange Hnil. destruct (length_currentReceipts s Hrange) as [Hlen Hleft].
  apply (f_equal length) in Hnil. simpl in Hnil. lia.
Qed.

(** X2. On a page between 1 and the last one there is at least one
    receipt and at most ten; a page before the last one has exactly
    ten; in general the page has the smaller of 10 and what is left of
    the filtered collection from the page's first position on. *)
Theorem currentReceipts_length_in_range (s : State) :
  1 ≤ currentPage s ≤ pageCount s →
  Z.of_nat (length (currentReceipts s))
  = Z.min 10 (filteredLength s - (currentPage s - 1) * 10) ∧
  (1 ≤ length (currentReceipts s) ≤ 10)%nat ∧
  (currentPage s < pageCount s → length (currentReceipts s) = 10%nat).
Proof.
  intros Hrange. destruct (length_currentReceipts s Hrange) as [Hlen Hleft].
  pose proof (pageCount_spec s) as HL.
  split_and!; [done | lia | lia |]. intros Hbefore. lia.
Qed.

Lemma shownPagination_showing (s : State) (bar : Pagination) :
  shownPagination s = Some bar →
  showing_from bar = indexOfFirstReceipt s + 1 ∧
  showing_to bar = Z.min (indexOfLastReceipt s) (filteredLength s) ∧
  showing_of bar = filteredLength s.
Proof.
  unfold shownPagination, render, pagination. simpl.
  destruct (isLoading s); [done|].
  destruct (Z.ltb_spec 0 (filteredLength s)); [|done].
  intros [= <-]. simpl. split_and!; [done | | done].
  destruct (Z.ltb_spec (filteredLength s) (indexOfLastReceipt s)); lia.
Qed.

(** X3. On a page between 1 and the last one, the line "Showing a to
    b of n results" is right: [n] is the number of filtered receipts,
    [a] is the 1-based position of the page's first receipt, [b] that
    of its last, [1 <= a <= b <= n], and the page shows [b - a + 1]
    rows. *)
Theorem showing_line_in_range (s : State) (bar : Pagination) :
  shownPagination s = Some bar →
  1 ≤ currentPage s ≤ pageCount s →
  showing_of bar = filteredLength s ∧
  showing_from bar = (currentPage s - 1) * 10 + 1 ∧
  showing_to bar = Z.min (currentPage s * 10) (filteredLength s) ∧
  1 ≤ showing_from bar ≤ showing_to bar ∧
  showing_to bar ≤ showing_of bar ∧
  Z.of_nat (length (shownRows s)) = showing_to bar - showing_from bar + 1.
Proof.
  intros Hbar Hrange.
  destruct (shownPagination_showing s bar Hbar) as (-> & -> & ->).
  apply shownPagination_Some in Hbar as (Hload & _).
  destruct (length_currentReceipts s Hrange) as [Hlen _].
  rewrite shownRows_not_loading, length_fmap by done.
  pose proof (pageCount_spec s) as HL.
  unfold indexOfFirstReceipt, indexOfLastReceipt, itemsPerPage. lia.
Qed.

(** X4. On a page beyond the last one, which a search can leave the
    component on, the bar is still there when something passed the
    filter, but its line reads backwards: [b] is the number of
    filtered receipts and [a] is larger than [b]; and the body is the
    empty row. *)
Theorem showing_line_beyond_last_page (s : State) (bar : Pagination) :
  shownPagination s = Some bar →
  pageCount s < currentPage s →
  showing_to bar = filteredLength s ∧
  showing_to bar < showing_from bar ∧
  shownRows s = [] ∧
  ∃ text, content (render s) = Table (EmptyRow text) (Some bar).
Proof.
  intros Hbar Hbeyond.
  destruct (shownPagination_showing s bar Hbar) as (-> & -> & _).
  pose proof (pageCount_spec s) as HL.
  destruct (shownPagination_Some s bar Hbar) as (_ & Hpos & _).
  assert (currentReceipts s = []) as Hnil.
  { rewrite currentReceipts_window by lia. rewrite drop_ge; [done|].
    change (length (filteredReceipts s) ≤ Z.to_nat ((currentPage s - 1) * 10))%nat.
    assert (filteredLength s = Z.of_nat (length (filteredReceipts s))) by done.
    lia. }
  unfold indexOfFirstReceipt, indexOfLastReceipt, itemsPerPage.
  split_and!; [lia | lia | by apply shownRows_no_rows |].
  destruct (tableBody_no_rows s Hnil) as (text & Hbody & _). exists text.
  revert Hbar. unfold shownPagination, render. simpl.
  destruct (isLoading s); [done|]. intros ->. by rewrite Hbody.
Qed.

(** *** Page controls *)

Lemma pageButtons_lookup (s : State) (index : nat) :
  pageButtons s !! index
  = if decide (Z.of_nat index < pageCount s)
    then Some {| button_key := Z.of_nat index;
                 button_label := Z.of_nat index + 1;
                 button_active := bool_decide (currentPage s = Z.of_nat index + 1);
                 button_target := Z.of_nat index + 1 |}
    else None.
Proof.
  unfold pageButtons. rewrite list_lookup_fmap. case_decide.
  - by rewrite lookup_seqZ_lt.
  - by rewrite lookup_seqZ_ge by lia.
Qed.

(** A click that goes through [paginate] either does nothing or sets
    the page to what the previous arrow, the next arrow or a numbered
    button in the tree asks for. *)
Lemma dispatch_page_click (w : World) (e : Event) :
  isPageClick e = true →
  dispatch e w = w ∨
  ∃ page, dispatch e w = update (paginate page) w ∧
          (page = previousPage (state w) ∨ page = nextPage (state w) ∨
           ∃ index : nat, Z.of_nat index < pageCount (state w) ∧
                          page = Z.of_nat index + 1).
Proof.
  destruct e; try done; intros _; simpl;
    (destruct (shownPagination (state w)) as [bar|] eqn:Hbar; [|by left]);
    apply shownPagination_Some in Hbar as (_ & _ & _ & Hprev & Hbuttons & _ & Hnext).
  - destruct (previous_disabled bar); [by left|]. right. rewrite Hprev. eauto.
  - simpl. rewrite Hbuttons, pageButtons_lookup. case_decide; [|by left].
    right. simpl. eauto 10.
  - destruct (next_disabled bar); [by left|]. right. rewrite Hnext. eauto.
Qed.

(** X5. A click on the numbered button at position [index] of the bar
    sets the page to [index + 1], which is a page between 1 and the
    last one and is not empty; where the bar has no button at that
    position nothing happens. *)
Theorem page_button_click (w : World) (index : nat) :
  is_Some (shownPagination (state w)) →
  let w' := dispatch (PageClicked index) w in
  (Z.of_nat index < pageCount (state w) →
     currentPage (state w') = Z.of_nat index + 1 ∧
     1 ≤ currentPage (state w') ≤ pageCount (state w') ∧
     currentReceipts (state w') ≠ []) ∧
  (pageCount (state w) ≤ Z.of_nat index → w' = w).
Proof.
  intros [bar Hbar] w'. subst w'. simpl. rewrite Hbar. simpl.
  apply shownPagination_Some in Hbar as (_ & _ & _ & _ & -> & _).
  rewrite pageButtons_lookup. split; intros Hindex.
  - rewrite decide_True by done. simpl.
    set (s' := paginate (Z.of_nat index + 1) (state w)).
    assert (pageCount s' = pageCount (state w)) as HL by done.
    assert (1 ≤ currentPage s' ≤ pageCount s') as Hrange by (simpl; lia).
    split_and!; [done | lia | lia |].
    by apply currentReceipts_in_range_nonempty.
  - by rewrite decide_False by lia.
Qed.

(** X6. A numbered button is highlighted exactly when its number is
    the current page: on a page between 1 and the last one that is one
    button, the one numbered with the page; on a page beyond the last
    one no button is highlighted. *)
Theorem page_buttons_active (s : State) :
  (∀ (index : nat) (button : PageButton),
     pageButtons s !! index = Some button →
     button_label button = Z.of_nat index + 1 ∧
     (button_active button = true ↔ button_label button = currentPage s)) ∧
  (1 ≤ currentPage s ≤ pageCount s →
     ∃ button, pageButtons s !! Z.to_nat (currentPage s - 1) = Some button ∧
               button_label button = currentPage s ∧
               button_active button = true) ∧
  (pageCount s < currentPage s →
     ∀ button, button ∈ pageButtons s → button_active button = false).
Proof.
  split_and!.
  - intros index button. rewrite pageButtons_lookup.
    case_decide; [|done]. intros [= <-]. simpl.
    split; [done|]. rewrite bool_decide_eq_true. split; lia.
  - intros Hrange. eexists. rewrite pageButtons_lookup, decide_True by lia.
    split_and!; [done | simpl; lia |]. simpl. apply bool_decide_eq_true. lia.
  - intros Hbeyond button Hin. apply list_elem_of_lookup in Hin as [index Hin].
    rewrite pageButtons_lookup in Hin. case_decide; [|done].
    injection Hin as <-. simpl. apply bool_decide_eq_false. lia.
Qed.

(** X7. On a page between 1 and the last one, an arrow is disabled
    exactly when a click on it would leave the page where it is: the
    previous arrow on page 1, the next arrow on the last page. *)
Theorem arrows_disabled_iff_no_move (s : State) (bar : Pagination) :
  shownPagination s = Some bar →
  1 ≤ currentPage s ≤ pageCount s →
  (previous_disabled bar = true ↔ previous_target bar = currentPage s) ∧
  (next_disabled bar = true ↔ next_target bar = currentPage s) ∧
  (previous_disabled bar = false → previous_target bar = currentPage s - 1) ∧
  (next_disabled bar = false → next_target bar = currentPage s + 1).
Proof.
  intros Hbar Hrange.
  apply shownPagination_Some in Hbar as (_ & _ & -> & -> & _ & -> & ->).
  unfold previousPage, nextPage.
  rewrite !bool_decide_eq_true, !bool_decide_eq_false.
  destruct (Z.ltb_spec 1 (currentPage s)),
    (Z.ltb_spec (currentPage s) (pageCount s)); split_and!; lia.
Qed.

(** X8. The arrows and the numbered buttons keep a page that is
    between 1 and the last one between 1 and the last one, and so on a
    page that has rows: they change nothing but the page number, so
    the filtered collection and its last page are the same. *)
Theorem page_clicks_stay_in_range (w : World) (e : Event) :
  isPageClick e = true →
  1 ≤ currentPage (state w) ≤ pageCount (state w) →
  let s' := state (dispatch e w) in
  filteredReceipts s' = filteredReceipts (state w) ∧
  pageCount s' = pageCount (state w) ∧
  1 ≤ currentPage s' ≤ pageCount s' ∧
  currentReceipts s' ≠ [].
Proof.
  intros He Hrange s'.
  assert (filteredReceipts s' = filteredReceipts (state w) ∧
          pageCount s' = pageCount (state w) ∧
          1 ≤ currentPage s' ≤ pageCount s') as (Hf & HL & Hrange').
  { subst s'. destruct (dispatch_page_click w e He)
      as [-> | (page & -> & Hpage)]; [done|].
    assert (1 ≤ page ≤ pageCount (state w)) as Hp.
    { unfold previousPage, nextPage in Hpage.
      destruct (Z.ltb_spec 1 (currentPage (state w))),
        (Z.ltb_spec (currentPage (state w)) (pageCount (state w)));
        destruct Hpage as [-> | [-> | (index & Hindex & ->)]]; lia. }
    split_and!; [done | done | apply Hp | apply Hp]. }
  split_and!; [done | done | lia | lia |].
  by apply currentReceipts_in_range_nonempty.
Qed.

(** X9. Nothing the user does touches what the loader owns: typing,
    clicking an arrow, a numbered button or "View" and closing the
    modal leave the held receipts, the loading flag, the error, the
    toasts and the console as they were.  There is no way to fetch
    again or to dismiss the error from the page. *)
Theorem user_events_keep_loader_state (w : World) (e : Event) :
  isUserEvent e = true →
  let w' := dispatch e w in
  receipts (state w') = receipts (state w) ∧
  isLoading (state w') = isLoading (state w) ∧
  error (state w') = error (state w) ∧
  toasts w' = toasts w ∧
  console w' = console w.
Proof.
  destruct e; try done; intros _; simpl.
  - destruct (shownPagination (state w)) as [bar|]; [|done].
    by destruct (previous_disabled bar).
  - by destruct (shownPagination (state w) ≫= _).
  - destruct (shownPagination (state w)) as [bar|]; [|done].
    by destruct (next_disabled bar).
  - by destruct (shownRows (state w) !! row).
Qed.

(** *** Receipt details *)

(** X10. A click on "View" in a row of the table selects the receipt
    of that row, the one at the row's position on the current page,
    and opens the modal on it, leaving the page and the search term as
    they are; closing the modal hides it and keeps the receipt
    selected. *)
Theorem view_click_opens_modal (w : World) (row : nat) (receipt : Receipt.t) :
  isLoading (state w) = false →
  currentReceipts (state w) !! row = Some receipt →
  let w1 := dispatch (ViewClicked row) w in
  let w2 := dispatch ModalClosed w1 in
  modal_receipt (render (state w1)) = Some receipt ∧
  modal_isOpen (render (state w1)) = true ∧
  currentPage (state w1) = currentPage (state w) ∧
  searchTerm (state w1) = searchTerm (state w) ∧
  modal_isOpen (render (state w2)) = false ∧
  modal_receipt (render (state w2)) = Some receipt.
Proof.
  intros Hload Hrow w1 w2. subst w2 w1. simpl.
  rewrite shownRows_not_loading, list_lookup_fmap, Hrow by done.
  by split_and!.
Qed.

(** X11. In every state a mounted component goes through, an open
    modal has a receipt to show. *)
Theorem open_modal_has_receipt (w : World) :
  Reachable w →
  isModalOpen (state w) = true → is_Some (selectedReceipt (state w)).
Proof.
  induction 1 as [|e w _ IH Hne]; [done|].
  destruct e; try done; simpl.
  - by destruct outcome.
  - destruct (shownPagination (state w)) as [bar|]; [|done].
    by destruct (previous_disabled bar).
  - by destruct (shownPagination (state w) ≫= _).
  - destruct (shownPagination (state w)) as [bar|]; [|done].
    by destruct (next_disabled bar).
  - destruct (shownRows (state w) !! row); [by eexists | done].
Qed.

(** *** Errors *)

(** X12. Every toast the component raises reads "Failed to load
    receipts", whatever the failure's own message is, and no toast is
    raised without a line on the console: there are at most as many
    toasts as console lines (a rejection with [null] or [undefined]
    leaves a line and no toast). *)
Theorem toasts_read_the_default (w : World) :
  Reachable w →
  Forall (λ toast, toast = ToastError (JsString.lit "Failed to load receipts"))
         (toasts w) ∧
  (length (toasts w) ≤ length (console w))%nat.
Proof.
  induction 1 as [|e w _ [IHt IHc] Hne]; [by split|].
  destruct e; try done; simpl.
  - destruct outcome; simpl; [done | |].
    + split.
      * apply Forall_app. split; [done | by constructor].
      * rewrite !length_app. simpl. lia.
    + split; [done|]. rewrite length_app. simpl. lia.
  - destruct (shownPagination (state w)) as [bar|]; [|done].
    by destruct (previous_disabled bar).
  - by destruct (shownPagination (state w) ≫= _).
  - destruct (shownPagination (state w)) as [bar|]; [|done].
    by destruct (next_disabled bar).
  - by destruct (shownRows (state w) !! row).
Qed.



(** *** More on the filter *)

Lemma substring_trans (a b c : JsString.t) :
  JsString.substring a b → JsString.substring b c → JsString.substring a c.
Proof.
  intros (b1 & b2 & ->) (c1 & c2 & ->).
  exists (c1 ++ b1), (b2 ++ c2). by rewrite <- !app_assoc.
Qed.

Lemma filter_sublist_impl {A} (P Q : A → Prop)
    `{!∀ x, Decision (P x), !∀ x, Decision (Q x)} (l : list A) :
  (∀ x, P x → Q x) → filter P l `sublist_of` filter Q l.
Proof.
  intros HPQ. rewrite <- (list_filter_filter_l P Q) by done.
  apply sublist_filter.
Qed.

(** X14. The search does not look at case: two search terms with the
    same lower-casing keep the same receipts. *)
Theorem search_ignores_case (s : State) (term1 term2 : JsString.t) :
  toLowerCase term1 = toLowerCase term2 →
  filteredReceipts (setSearchTerm term1 s) = filteredReceipts (setSearchTerm term2 s).
Proof.
  intros Hlower. unfold filteredReceipts. simpl.
  apply list_filter_iff. intros receipt. unfold receiptMatches. cbv zeta.
  by rewrite Hlower.
Qed.

(** X15. A search term that contains another one, lower-cased, keeps
    no receipt the other one drops: its filtered collection is a
    subsequence of the other's, so it is no longer and has no more
    pages. *)
Theorem longer_term_narrows (s : State) (term1 term2 : JsString.t) :
  JsString.substring (toLowerCase term1) (toLowerCase term2) →
  let s1 := setSearchTerm term1 s in
  let s2 := setSearchTerm term2 s in
  filteredReceipts s2 `sublist_of` filteredReceipts s1 ∧
  filteredLength s2 ≤ filteredLength s1 ∧
  pageCount s2 ≤ pageCount s1.
Proof.
  intros Hsub s1 s2.
  assert (filteredReceipts s2 `sublist_of` filteredReceipts s1) as Hlist.
  { unfold filteredReceipts. simpl. apply filter_sublist_impl.
    intros receipt. unfold receiptMatches. cbv zeta.
    rewrite !orb_True, !Is_true_true, !includes_spec.
    pose proof (λ c, substring_trans _ _ c Hsub) as Htrans.
    intros [[[[[[?|?]|?]|?]|?]|?]|?]; eauto 10. }
  assert (filteredLength s2 ≤ filteredLength s1) as Hlen.
  { apply sublist_length in Hlist. unfold filteredLength. lia. }
  split_and!; [done | done |].
  pose proof (pageCount_spec s1). pose proof (pageCount_spec s2). lia.
Qed.

(** *** Rows *)

(** X16. When the held receipts have distinct ids, the rows in the
    tree have distinct keys. *)
Theorem row_keys_distinct (s : State) :
  NoDup (Receipt._id <$> receipts s) →
  NoDup (row_key <$> shownRows s).
Proof.
  intros Hids.
  assert (row_key <$> shownRows s `sublist_of` Receipt._id <$> receipts s)
    as Hsub; [|by eapply sublist_NoDup].
  destruct (isLoading s) eqn:Hload.
  - unfold shownRows, render. simpl. rewrite Hload. apply sublist_nil_l.
  - rewrite shownRows_not_loading, <- list_fmap_compose by done.
    apply fmap_sublist. etrans; [apply slice_sublist|].
    unfold filteredReceipts. apply sublist_filter.
Qed.

(** *** From the mount to the first table *)

Lemma receiptMatches_empty_term (receipt : Receipt.t) :
  toLowerCase [] = [] → receiptMatches [] receipt = true.
Proof.
  intros Hlower. unfold receiptMatches. cbv zeta.
  by rewrite Hlower, !includes_empty.
Qed.

Lemma shownPagination_loading (s : State) :
  isLoading s = true → shownPagination s = None.
Proof. intros Hload. unfold shownPagination, render. simpl. by rewrite Hload. Qed.

Lemma shownRows_loading (s : State) : isLoading s = true → shownRows s = [].
Proof. intros Hload. unfold shownRows, render. simpl. by rewrite Hload. Qed.

(** While the fetch started by the mount is pending, the user can
    type in the search box and nothing else takes effect: the page is
    1, nothing is held, no error is set, the logs are empty, and the
    search term is the last value typed. *)
Lemma pending_state (events : list Event) :
  Forall (λ e, isUserEvent e = true) events →
  let w := run (Mounted :: events) initialWorld in
  isLoading (state w) = true ∧
  receipts (state w) = [] ∧
  currentPage (state w) = 1 ∧
  error (state w) = None ∧
  searchTerm (state w) = typedTerm events ∧
  toasts w = [] ∧
  console w = [].
Proof.
  induction events as [|e events IH] using rev_ind; intros Hall; [done|].
  apply Forall_app in Hall as [Hall He]. apply Forall_inv in He.
  destruct (IH Hall) as (Hload & Hheld & Hpage & Herr & Hterm & Htoasts & Hlog).
  cbv zeta. rewrite app_comm_cons, run_snoc.
  unfold typedTerm. rewrite foldl_app. fold (typedTerm events).
  set (w := run (Mounted :: events) initialWorld) in *.
  destruct e; try done; simpl;
    rewrite ?(shownPagination_loading _ Hload), ?(shownRows_loading _ Hload);
    simpl; by rewrite ?lookup_nil.
Qed.

Lemma run_mounted_settled (events : list Event) (outcome : Settled) :
  run (Mounted :: events ++ [FetchSettled outcome]) initialWorld
  = fetchReceipts_settled outcome (run (Mounted :: events) initialWorld).
Proof. by rewrite app_comm_cons, run_snoc. Qed.


(** X17. When the fetch started by the mount succeeds, whatever the
    user did while it was pending, the component holds the fetched
    receipts, is on page 1 and has no error banner; the search term is
    the last value typed while pending; the rows of the table are the
    first ten of the fetched receipts that pass that search, in the
    order they were fetched, and the bar has as many numbered buttons
    as the ceiling of the number that pass over 10.  When nothing was
    typed, those are the first ten fetched receipts and the ceiling of
    the number fetched over 10.  (The lower-casing of the empty string
    is the empty string.) *)
Theorem first_load_shows_first_page (events : list Event) (data : list Receipt.t) :
  Forall (λ e, isUserEvent e = true) events →
  let s := state (run (Mounted :: events ++ [FetchSettled (Fulfilled data)])
                      initialWorld) in
  receipts s = data ∧
  currentPage s = 1 ∧
  error_banner (render s) = None ∧
  searchTerm s = typedTerm events ∧
  view_receipt <$> shownRows s = take 10 (filteredReceipts s) ∧
  length (shownPageButtons s) = Z.to_nat (pageCount s) ∧
  (toLowerCase [] = [] →
   typedTerm events = [] →
   view_receipt <$> shownRows s = take 10 data ∧
   length (shownPageButtons s)
   = Z.to_nat (JsArray.ceil_div (Z.of_nat (length data)) 10)).
Proof.
  intros Hall s. subst s. rewrite run_mounted_settled.
  destruct (pending_state events Hall) as (_ & _ & Hpage & Herr & Hterm & _).
  set (w := run (Mounted :: events) initialWorld) in *.
  set (s := state (fetchReceipts_settled (Fulfilled data) w)).
  assert (currentPage s = 1) as Hpage' by done.
  assert (searchTerm s = typedTerm events) as Hterm' by done.
  assert (isLoading s = false) as Hload by done.
  assert (wellFormed s) as Hwf by (split; [lia | by rewrite Hload]).
  assert (view_receipt <$> shownRows s = take 10 (filteredReceipts s)) as Hrows.
  { rewrite shownRows_not_loading by done.
    rewrite currentReceipts_window by lia. rewrite Hpage'. simpl.
    rewrite <- list_fmap_compose. apply list_fmap_id. }
  pose proof (length_shownPageButtons s Hwf) as Hbuttons.
  split_and!; [done | done | | done | done | done |].
  - simpl. by rewrite Herr.
  - intros Hlower Hnone.
    assert (filteredReceipts s = data) as Hfiltered.
    { unfold filteredReceipts. rewrite Hterm', Hnone.
      apply filter_all. intros receipt.
      by rewrite receiptMatches_empty_term. }
    rewrite Hrows, Hbuttons. unfold pageCount, filteredLength.
    by rewrite Hfiltered.
Qed.


(** X19. In every state a mounted component goes through the page
    number is at least 1, and while the fetch is pending nothing is
    held, so nothing passes the filter and there are 0 pages. *)
Theorem mounted_states_invariant (w : World) :
  Reachable w →
  1 ≤ currentPage (state w) ∧
  (isLoading (state w) = true →
     receipts (state w) = [] ∧
     filteredReceipts (state w) = [] ∧
     pageCount (state w) = 0).
Proof.
  intros Hreach. destruct (Reachable_wellFormed w Hreach) as [Hpage Hload].
  split; [done|]. intros Hl.
  assert (filteredReceipts (state w) = []) as Hnil
    by (unfold filteredReceipts; by rewrite (Hload Hl)).
  split_and!; [by apply Hload | done | by apply pageCount_empty].
Qed.

End Component.

(** ** The component on the sample data *)

Lemma filteredReceipts_empty_term_witness :
  let s := state (run JsString.ascii_toLowerCase sample_Date_parse
                      sample_format_date sample_format_USD
                      sessionLoaded initialWorld) in
  JsString.ascii_toLowerCase [] = [] ∧
  searchTerm s = [] ∧
  filteredReceipts JsString.ascii_toLowerCase s = sampleReceipts.
Proof.
  intros s. split_and!; [reflexivity | reflexivity |].
  exact (proj2 (filteredReceipts_empty_term JsString.ascii_toLowerCase s
                  eq_refl eq_refl)).
Defined.

Lemma paginator_slices_and_pages_witness :
  let s := state (run JsString.ascii_toLowerCase sample_Date_parse
                      sample_format_date sample_format_USD
                      sessionPage3 initialWorld) in
  wellFormed s ∧
  currentReceipts JsString.ascii_toLowerCase s = sampleReceipt <$> seq 20 5 ∧
  length (shownPageButtons JsString.ascii_toLowerCase sample_Date_parse
            sample_format_date sample_format_USD s) = 3%nat.
Proof.
  intros s.
  assert (wellFormed s) as Hwf by (split; vm_compute; done).
  pose proof (paginator_slices_and_pages JsString.ascii_toLowerCase
                sample_Date_parse sample_format_date sample_format_USD s Hwf)
    as Hpages.
  cbv zeta in Hpages. destruct Hpages as (Hslice & _ & _ & _ & _ & Hshown & _).
  split_and!; [exact Hwf | rewrite Hslice; vm_compute; reflexivity |].
  rewrite Hshown. vm_compute. reflexivity.
Defined.

Lemma arrows_previous_next_witness :
  let w := run JsString.ascii_toLowerCase sample_Date_parse
               sample_format_date sample_format_USD
               sessionPage3 initialWorld in
  let click e := currentPage (state (dispatch JsString.ascii_toLowerCase
                   sample_Date_parse sample_format_date sample_format_USD e w)) in
  currentPage (state w) = pageCount JsString.ascii_toLowerCase (state w) ∧
  click PreviousClicked = 2 ∧
  click NextClicked = 3.
Proof.
  intros w click.
  pose proof (arrows_previous_next JsString.ascii_toLowerCase sample_Date_parse
                sample_format_date sample_format_USD w) as Harrows.
  cbv zeta in Harrows.
  destruct Harrows as (_ & Hprev & _ & _ & _ & Hclick & Hlast).
  assert (currentPage (state w) = pageCount JsString.ascii_toLowerCase (state w))
    as Hp by (vm_compute; reflexivity).
  split_and!; [exact Hp | |].
  - unfold click. rewrite (proj1 (Hclick ltac:(vm_compute; eauto))).
    rewrite Hprev; vm_compute; reflexivity.
  - unfold click. rewrite (Hlast Hp). vm_compute. reflexivity.
Defined.

(** A session after which the page is 3 and the last page is 1: the
    "next" arrow is enabled there, and a click on it leaves the page
    at 3. *)
Lemma next_beyond_last_page_counterexample :
  let w := run JsString.ascii_toLowerCase sample_Date_parse
               sample_format_date sample_format_USD
               sessionSearchOnPage3 initialWorld in
  let w' := dispatch JsString.ascii_toLowerCase sample_Date_parse
                     sample_format_date sample_format_USD NextClicked w in
  Reachable JsString.ascii_toLowerCase sample_Date_parse
            sample_format_date sample_format_USD w ∧
  currentPage (state w) = 3 ∧
  pageCount JsString.ascii_toLowerCase (state w) = 1 ∧
  (next_disabled <$> shownPagination JsString.ascii_toLowerCase
     sample_Date_parse sample_format_date sample_format_USD (state w))
  = Some false ∧
  currentPage (state w') = 3 ∧
  currentPage (state w') ≠ pageCount JsString.ascii_toLowerCase (state w).
Proof.
  intros w w'. split_and!; try (vm_compute; reflexivity).
  - apply (Reachable_run _ _ _ _ (tail sessionSearchOnPage3)).
    repeat constructor; discriminate.
  - vm_compute. discriminate.
Qed.

(** Once the receipts are there, a search that matches none of them
    shows the search-aware empty row and no bar. *)
Lemma empty_result_view_witness :
  let s := state (run JsString.ascii_toLowerCase sample_Date_parse
                      sample_format_date sample_format_USD
                      (sessionLoaded ++ [SearchTyped (JsString.lit "zzz")])
                      initialWorld) in
  filteredReceipts JsString.ascii_toLowerCase s = [] ∧
  isLoading s = false ∧
  content (render JsString.ascii_toLowerCase sample_Date_parse
             sample_format_date sample_format_USD s)
  = Table (EmptyRow (JsString.lit "No receipts found matching your search.")) None.
Proof.
  intros s.
  assert (filteredReceipts JsString.ascii_toLowerCase s = []) as Hnil
    by (vm_compute; reflexivity).
  assert (isLoading s = false) as Hload by reflexivity.
  destruct (empty_result_view JsString.ascii_toLowerCase sample_Date_parse
              sample_format_date sample_format_USD s Hnil) as [_ Hbody].
  destruct (Hbody Hload) as (text & Hcontent & Hsearch & _).
  split_and!; [exact Hnil | exact Hload |].
  rewrite Hcontent, Hsearch; [reflexivity | vm_compute; discriminate].
Defined.

(** Right after the mount nothing passes the filter, since nothing is
    held yet, and what is shown is the spinner: there is no table, so
    no empty row. *)
Lemma empty_result_while_loading_counterexample :
  let s := state (run JsString.ascii_toLowerCase sample_Date_parse
                      sample_format_date sample_format_USD
                      [Mounted] initialWorld) in
  filteredReceipts JsString.ascii_toLowerCase s = [] ∧
  content (render JsString.ascii_toLowerCase sample_Date_parse
             sample_format_date sample_format_USD s) = Spinner ∧
  ¬ ∃ text bar,
      content (render JsString.ascii_toLowerCase sample_Date_parse
                 sample_format_date sample_format_USD s)
      = Table (EmptyRow text) bar.
Proof.
  intros s. split_and!; [reflexivity | reflexivity |].
  intros (text & bar & Hcontent). vm_compute in Hcontent. discriminate.
Qed.

Lemma search_keeps_currentPage_witness :
  let w := run JsString.ascii_toLowerCase sample_Date_parse
               sample_format_date sample_format_USD
               sessionPage3 initialWorld in
  let s' := state (dispatch JsString.ascii_toLowerCase sample_Date_parse
                     sample_format_date sample_format_USD
                     (SearchTyped (JsString.lit "ALICE")) w) in
  0 < filteredLength JsString.ascii_toLowerCase s' ≤ (currentPage (state w) - 1) * 10 ∧
  currentPage s' = 3 ∧
  currentReceipts JsString.ascii_toLowerCase s' = [] ∧
  currentReceipts JsString.ascii_toLowerCase (paginate 1 s') ≠ [].
Proof.
  intros w s'.
  assert (0 < filteredLength JsString.ascii_toLowerCase s'
          ≤ (currentPage (state w) - 1) * 10) as Hrange
    by (split; vm_compute; [reflexivity | discriminate]).
  pose proof (search_keeps_currentPage JsString.ascii_toLowerCase
                sample_Date_parse sample_format_date sample_format_USD
                w (JsString.lit "ALICE")) as Hsearch.
  cbv zeta in Hsearch. destruct Hsearch as [(_ & Hpage & _) Hslice].
  destruct (Hslice Hrange) as (Hnil & _ & Hfirst).
  split; [exact Hrange|].
  split_and!; [| exact Hnil | exact Hfirst].
  fold w s' in Hpage. rewrite Hpage. vm_compute. reflexivity.
Defined.

Lemma fetchReceipts_outcomes_witness :
  let err := {| message := Some (JsString.lit "Network Error") |} in
  let w' := fetchReceipts (Rejected err) initialWorld in
  message err = Some (JsString.lit "Network Error") ∧
  error (state w') = Some (JsString.lit "Network Error") ∧
  toasts w' = [ToastError (JsString.lit "Failed to load receipts")].
Proof.
  intros err w'.
  pose proof (fetchReceipts_outcomes JsString.ascii_toLowerCase
                sample_Date_parse sample_format_date sample_format_USD
                initialWorld) as Hfetch.
  cbv zeta in Hfetch. destruct Hfetch as (_ & Hfail & _).
  destruct (Hfail err) as (text & Herror & _ & Hmessage & _ & _ & Htoasts & _).
  split_and!; [reflexivity | | exact Htoasts].
  fold w' in Herror. rewrite Herror. f_equal.
  apply Hmessage; [reflexivity | vm_compute; discriminate].
Defined.

(** The receipt whose completion date reads "not-a-date" is on page 1,
    and its date cell reads "not-a-date". *)
Lemma formatDate_or_raw_witness :
  let s := state (run JsString.ascii_toLowerCase sample_Date_parse
                      sample_format_date sample_format_USD
                      sessionLoaded initialWorld) in
  sample_Date_parse (JsString.lit "not-a-date") = None ∧
  formatDate sample_Date_parse sample_format_date (JsString.lit "not-a-date")
  = JsString.lit "not-a-date" ∧
  ∃ row, row ∈ shownRows JsString.ascii_toLowerCase sample_Date_parse
                 sample_format_date sample_format_USD s ∧
         view_receipt row = sampleReceipt 0 ∧
         cell_date row = JsString.lit "not-a-date".
Proof.
  intros s.
  assert (sample_Date_parse (JsString.lit "not-a-date") = None) as Hparse
    by (vm_compute; reflexivity).
  destruct (formatDate_or_raw JsString.ascii_toLowerCase sample_Date_parse
              sample_format_date sample_format_USD (JsString.lit "not-a-date"))
    as (_ & Hraw & Hrow).
  split_and!; [exact Hparse | exact (Hraw Hparse) |].
  destruct (Hrow s (sampleReceipt 0)) as (row & Hin & Hview & Hdate).
  - reflexivity.
  - reflexivity.
  - vm_compute. apply list_elem_of_here.
  - exists row. split_and!; [exact Hin | exact Hview |].
    rewrite Hdate. exact (Hraw Hparse).
Defined.

(** ** The further properties on the sample data *)

Local Abbreviation sampleRun :=
  (run JsString.ascii_toLowerCase sample_Date_parse sample_format_date
       sample_format_USD).
Local Abbreviation sampleDispatch :=
  (dispatch JsString.ascii_toLowerCase sample_Date_parse sample_format_date
            sample_format_USD).
Local Abbreviation sampleBar :=
  (shownPagination JsString.ascii_toLowerCase sample_Date_parse
                   sample_format_date sample_format_USD).
Local Abbreviation sampleRows :=
  (shownRows JsString.ascii_toLowerCase sample_Date_parse sample_format_date
             sample_format_USD).
Local Abbreviation sampleRender :=
  (render JsString.ascii_toLowerCase sample_Date_parse sample_format_date
          sample_format_USD).
Local Abbreviation sampleReachable :=
  (Reachable JsString.ascii_toLowerCase sample_Date_parse sample_format_date
             sample_format_USD).
Local Abbreviation samplePageCount := (pageCount JsString.ascii_toLowerCase).
Local Abbreviation sampleCurrent := (currentReceipts JsString.ascii_toLowerCase).
Local Abbreviation sampleFiltered := (filteredReceipts JsString.ascii_toLowerCase).

Lemma currentReceipts_length_in_range_witness :
  let s := state (sampleRun sessionLoaded initialWorld) in
  1 ≤ currentPage s ≤ samplePageCount s ∧
  length (sampleCurrent s) = 10%nat.
Proof.
  intros s.
  assert (1 ≤ currentPage s ≤ samplePageCount s) as Hrange
    by (split; vm_compute; discriminate).
  split; [exact Hrange|].
  apply (currentReceipts_length_in_range JsString.ascii_toLowerCase s Hrange).
  vm_compute. reflexivity.
Defined.

Lemma showing_line_in_range_witness :
  let s := state (sampleRun sessionPage3 initialWorld) in
  ∃ bar, sampleBar s = Some bar ∧
         1 ≤ currentPage s ≤ samplePageCount s ∧
         showing_from bar = 21 ∧ showing_to bar = 25 ∧ showing_of bar = 25 ∧
         length (sampleRows s) = 5%nat.
Proof.
  intros s.
  assert (is_Some (sampleBar s)) as [bar Hbar] by (vm_compute; eauto).
  assert (1 ≤ currentPage s ≤ samplePageCount s) as Hrange
    by (split; vm_compute; discriminate).
  destruct (showing_line_in_range JsString.ascii_toLowerCase sample_Date_parse
              sample_format_date sample_format_USD s bar Hbar Hrange)
    as (Hof & Hfrom & Hto & _ & _ & Hrows).
  exists bar. split; [exact Hbar|]. split; [exact Hrange|].
  rewrite Hfrom, Hto, Hof. vm_compute. auto.
Defined.

Lemma showing_line_beyond_last_page_witness :
  let s := state (sampleRun sessionSearchOnPage3 initialWorld) in
  ∃ bar, sampleBar s = Some bar ∧
         samplePageCount s < currentPage s ∧
         showing_to bar = 5 ∧
         showing_to bar < showing_from bar.
Proof.
  intros s.
  assert (is_Some (sampleBar s)) as [bar Hbar] by (vm_compute; eauto).
  assert (samplePageCount s < currentPage s) as Hbeyond
    by (vm_compute; reflexivity).
  destruct (showing_line_beyond_last_page JsString.ascii_toLowerCase
              sample_Date_parse sample_format_date sample_format_USD
              s bar Hbar Hbeyond)
    as (Hto & Hlt & _).
  exists bar. split_and!; [exact Hbar | exact Hbeyond | | exact Hlt].
  rewrite Hto. vm_compute. reflexivity.
Defined.

Lemma page_button_click_witness :
  let w := sampleRun sessionLoaded initialWorld in
  is_Some (sampleBar (state w)) ∧
  1 < samplePageCount (state w) ∧
  currentPage (state (sampleDispatch (PageClicked 1) w)) = 2.
Proof.
  intros w.
  assert (is_Some (sampleBar (state w))) as Hbar by (vm_compute; eauto).
  assert (Z.of_nat 1 < samplePageCount (state w)) as Hindex
    by (vm_compute; reflexivity).
  split_and!; [exact Hbar | exact Hindex |].
  apply (page_button_click JsString.ascii_toLowerCase sample_Date_parse
           sample_format_date sample_format_USD w 1 Hbar). exact Hindex.
Defined.

Lemma arrows_disabled_iff_no_move_witness :
  let s := state (sampleRun sessionLoaded initialWorld) in
  ∃ bar, sampleBar s = Some bar ∧
         1 ≤ currentPage s ≤ samplePageCount s ∧
         previous_disabled bar = true ∧
         next_target bar = 2.
Proof.
  intros s.
  assert (is_Some (sampleBar s)) as [bar Hbar] by (vm_compute; eauto).
  assert (1 ≤ currentPage s ≤ samplePageCount s) as Hrange
    by (split; vm_compute; discriminate).
  destruct (arrows_disabled_iff_no_move JsString.ascii_toLowerCase
              sample_Date_parse sample_format_date sample_format_USD
              s bar Hbar Hrange)
    as (Hprev & _ & _ & Hnext).
  exists bar. split_and!; [exact Hbar | apply Hrange | apply Hrange | |].
  - apply Hprev. vm_compute in Hbar. injection Hbar as <-. reflexivity.
  - apply Hnext. vm_compute in Hbar. injection Hbar as <-. reflexivity.
Defined.

Lemma page_clicks_stay_in_range_witness :
  let w := sampleRun sessionLoaded initialWorld in
  isPageClick NextClicked = true ∧
  1 ≤ currentPage (state w) ≤ samplePageCount (state w) ∧
  1 ≤ currentPage (state (sampleDispatch NextClicked w))
  ≤ samplePageCount (state (sampleDispatch NextClicked w)).
Proof.
  intros w.
  assert (1 ≤ currentPage (state w) ≤ samplePageCount (state w)) as Hrange
    by (split; vm_compute; discriminate).
  split; [reflexivity|]. split; [exact Hrange|].
  apply (page_clicks_stay_in_range JsString.ascii_toLowerCase sample_Date_parse
           sample_format_date sample_format_USD w NextClicked eq_refl Hrange).
Defined.

Lemma user_events_keep_loader_state_witness :
  let w := sampleRun sessionLoaded initialWorld in
  let e := SearchTyped (JsString.lit "zzz") in
  isUserEvent e = true ∧
  receipts (state (sampleDispatch e w)) = sampleReceipts.
Proof.
  intros w e. split; [reflexivity|].
  destruct (user_events_keep_loader_state JsString.ascii_toLowerCase
              sample_Date_parse sample_format_date sample_format_USD
              w e eq_refl) as (Hreceipts & _).
  rewrite Hreceipts. reflexivity.
Defined.

Lemma view_click_opens_modal_witness :
  let w := sampleRun sessionLoaded initialWorld in
  isLoading (state w) = false ∧
  sampleCurrent (state w) !! 1%nat = Some (sampleReceipt 1) ∧
  modal_receipt (sampleRender (state (sampleDispatch (ViewClicked 1) w)))
  = Some (sampleReceipt 1).
Proof.
  intros w.
  assert (sampleCurrent (state w) !! 1%nat = Some (sampleReceipt 1)) as Hrow
    by (vm_compute; reflexivity).
  split_and!; [reflexivity | exact Hrow |].
  apply (view_click_opens_modal JsString.ascii_toLowerCase sample_Date_parse
           sample_format_date sample_format_USD w 1 (sampleReceipt 1)
           eq_refl Hrow).
Defined.

Lemma open_modal_has_receipt_witness :
  let w := sampleRun (sessionLoaded ++ [ViewClicked 0]) initialWorld in
  sampleReachable w ∧
  isModalOpen (state w) = true ∧
  is_Some (selectedReceipt (state w)).
Proof.
  intros w.
  assert (sampleReachable w) as Hreach.
  { apply (Reachable_run _ _ _ _ (tail (sessionLoaded ++ [ViewClicked 0]))).
    repeat constructor; discriminate. }
  split_and!; [exact Hreach | reflexivity |].
  apply (open_modal_has_receipt JsString.ascii_toLowerCase sample_Date_parse
           sample_format_date sample_format_USD w Hreach). reflexivity.
Defined.

Lemma toasts_read_the_default_witness :
  let err := {| message := Some (JsString.lit "Network Error") |} in
  let w := sampleRun [Mounted; FetchSettled (Rejected err)] initialWorld in
  sampleReachable w ∧
  toasts w = [ToastError (JsString.lit "Failed to load receipts")] ∧
  (length (toasts w) ≤ length (console w))%nat.
Proof.
  intros err w.
  assert (sampleReachable w) as Hreach.
  { apply (Reachable_run _ _ _ _ [FetchSettled (Rejected err)]).
    repeat constructor; discriminate. }
  split_and!; [exact Hreach | reflexivity |].
  apply (toasts_read_the_default JsString.ascii_toLowerCase sample_Date_parse
           sample_format_date sample_format_USD w Hreach).
Defined.


Lemma search_ignores_case_witness :
  let s := state (sampleRun sessionLoaded initialWorld) in
  JsString.ascii_toLowerCase (JsString.lit "ALICE")
  = JsString.ascii_toLowerCase (JsString.lit "alice") ∧
  sampleFiltered (setSearchTerm (JsString.lit "ALICE") s)
  = sampleFiltered (setSearchTerm (JsString.lit "alice") s).
Proof.
  intros s. split; [reflexivity|].
  apply (search_ignores_case JsString.ascii_toLowerCase s). reflexivity.
Defined.

Lemma longer_term_narrows_witness :
  let s := state (sampleRun sessionLoaded initialWorld) in
  let short := JsString.lit "ex" in
  let long := JsString.lit "alice@EX" in
  JsString.substring (JsString.ascii_toLowerCase short)
                     (JsString.ascii_toLowerCase long) ∧
  samplePageCount (setSearchTerm long s) ≤ samplePageCount (setSearchTerm short s).
Proof.
  intros s short long.
  assert (JsString.substring (JsString.ascii_toLowerCase short)
                             (JsString.ascii_toLowerCase long)) as Hsub
    by (exists (JsString.lit "alice@"), []; reflexivity).
  split; [exact Hsub|].
  apply (longer_term_narrows JsString.ascii_toLowerCase s short long Hsub).
Defined.

Lemma row_keys_distinct_witness :
  let s := state (sampleRun sessionLoaded initialWorld) in
  NoDup (Receipt._id <$> receipts s) ∧
  NoDup (row_key <$> sampleRows s).
Proof.
  intros s.
  assert (NoDup (Receipt._id <$> receipts s)) as Hids
    by (apply (bool_decide_unpack _); vm_compute; exact I).
  split; [exact Hids|].
  apply (row_keys_distinct JsString.ascii_toLowerCase sample_Date_parse
           sample_format_date sample_format_USD s Hids).
Defined.

(** With nothing typed while pending the first ten fetched receipts
    are shown; with "ALICE" typed while pending, the five that match. *)
Lemma first_load_shows_first_page_witness :
  let typed := [SearchTyped (JsString.lit "ALICE")] in
  let s0 := state (sampleRun (Mounted :: [] ++ [FetchSettled (Fulfilled sampleReceipts)])
                             initialWorld) in
  let s1 := state (sampleRun (Mounted :: typed ++ [FetchSettled (Fulfilled sampleReceipts)])
                             initialWorld) in
  Forall (λ e, isUserEvent e = true) typed ∧
  JsString.ascii_toLowerCase [] = [] ∧
  typedTerm [] = [] ∧
  view_receipt <$> sampleRows s0 = sampleReceipt <$> seq 0 10 ∧
  view_receipt <$> sampleRows s1 = sampleReceipt <$> seq 0 5.
Proof.
  intros typed s0 s1.
  assert (Forall (λ e, isUserEvent e = true) typed) as Htyped
    by (repeat constructor).
  split_and!; [exact Htyped | reflexivity | reflexivity | |].
  - pose proof (first_load_shows_first_page JsString.ascii_toLowerCase
                  sample_Date_parse sample_format_date sample_format_USD
                  [] sampleReceipts (List.Forall_nil _)) as Hfirst.
    cbv zeta in Hfirst. destruct Hfirst as (_ & _ & _ & _ & _ & _ & Hnone).
    destruct (Hnone eq_refl eq_refl) as [Hrows _].
    fold s0 in Hrows. rewrite Hrows. reflexivity.
  - pose proof (first_load_shows_first_page JsString.ascii_toLowerCase
                  sample_Date_parse sample_format_date sample_format_USD
                  typed sampleReceipts Htyped) as Hfirst.
    cbv zeta in Hfirst. destruct Hfirst as (_ & _ & _ & _ & Hrows & _).
    fold s1 in Hrows. rewrite Hrows. vm_compute. reflexivity.
Defined.


Lemma mounted_states_invariant_witness :
  let w := sampleDispatch Mounted initialWorld in
  sampleReachable w ∧
  isLoading (state w) = true ∧
  samplePageCount (state w) = 0.
Proof.
  intros w.
  assert (sampleReachable w) as Hreach by apply reach_mount.
  split_and!; [exact Hreach | reflexivity |].
  apply (mounted_states_invariant JsString.ascii_toLowerCase sample_Date_parse
           sample_format_date sample_format_USD w Hreach). reflexivity.
Defined.
